(** * CalcBlowingSnow.c: sublimation flux from blowing snow (VIC)

    A shallow embedding of [src/CalcBlowingSnow.c].  Every C function of the
    file is one definition below, under the source's name, with the source's
    order of operations.  The definitions are written once, over an abstract
    arithmetic [Arith D] that stands for C's [double], and read in two ways:

    - [ieee] is IEEE-754 binary64 (Rocq's primitive floats): the program can
      be run on concrete inputs, and a property proved here holds of the
      doubles themselves, NaN and infinities included;
    - [real] is exact real arithmetic, the reading in which the specification
      states its properties ("all real-valued" quantities): order and algebra
      behave as in the specification's formulas.

    A theorem names the arithmetic it is about; one that needs no fact of
    arithmetic is stated for every [Arith D].

    What the file takes from other places is not part of the translation
    unit: libm's [exp], [log], [pow], [cos] are fields of [Arith]; the
    constants of VIC's headers and [svp] are the fields of an environment
    [Env], over which the theorems quantify.

    Effects.  [fprintf(stderr, ...)], [exit] and [nrerror] are events and
    outcomes of a small writer-and-error monad [M].  [trapzd]'s static
    accumulator is threaded through [qromb].  Arrays are maps from index to
    cell.  The local [U10] of [CalcBlowingSnow] is read before any assignment
    on one path: what it holds there is an extra argument of the model. *)

From Stdlib Require Import ZArith QArith Floats Reals Lra Psatz String List Bool.
Import ListNotations.

(** ** The arithmetic of [double] *)

Class Arith (D : Type) := {
  of_Q : Q -> D;                  (* a decimal literal of the source, [$q] *)
  of_int : Z -> D;                (* the conversion int -> double *)
  add : D -> D -> D;
  sub : D -> D -> D;
  mul : D -> D -> D;
  div : D -> D -> D;
  ltb : D -> D -> bool;           (* x < y *)
  leb : D -> D -> bool;           (* x <= y *)
  eqb : D -> D -> bool;           (* x == y *)
  fabs : D -> D;
  sqrt : D -> D;
  exp : D -> D;
  log : D -> D;
  cos : D -> D;
  pow : D -> D -> D;
  to_float : D -> D               (* a store into a C [float] variable *)
}.
Arguments of_Q {D _} q%_Q.
Arguments of_int {D _} z%_Z.

Declare Scope dbl_scope.
Delimit Scope dbl_scope with dbl.
Notation "$ q" := (of_Q q) (at level 1, q at level 0, format "$ q") : dbl_scope.
Notation "x + y" := (add x y) : dbl_scope.
Notation "x - y" := (sub x y) : dbl_scope.
Notation "x * y" := (mul x y) : dbl_scope.
Notation "x / y" := (div x y) : dbl_scope.
Notation "x <? y" := (ltb x y) : dbl_scope.
Notation "x <=? y" := (leb x y) : dbl_scope.
Notation "x =? y" := (eqb x y) : dbl_scope.
Notation "x >? y" := (ltb y x) : dbl_scope.
Notation "x >=? y" := (leb y x) : dbl_scope.
Notation "x <>? y" := (negb (eqb x y)) (at level 70) : dbl_scope.

(** ** Effects: the error stream, process exit, and the calls of the
    Flux Assembler

    The C code writes diagnostics to [stderr], leaves the process in [rtnewt]
    ([exit(0)]) and through [nrerror], and is otherwise pure.  A computation
    yields the events it produced, in order, and how it ended.  A diagnostic
    is one [Stderr] event, named by the first line it prints (the values it
    formats are left out).  [Flux_call] is a ghost event: the driver records
    the wind speed with which it invokes [CalcSubFlux]. *)

Inductive stop : Type :=
| Exit (status : Z)               (* exit(status) *)
| Nrerror (msg : string).         (* nrerror(msg): prints and terminates *)

Inductive outcome (A : Type) : Type :=
| Ret (a : A)
| Stop (s : stop).
Arguments Ret {A} a.
Arguments Stop {A} s.

Inductive event (D : Type) : Type :=
| Stderr (msg : string)
| Flux_call (U10 : D).
Arguments Stderr {D} msg.
Arguments Flux_call {D} U10.

Definition M (D A : Type) : Type := (list (event D) * outcome A)%type.

Definition ret {D A} (a : A) : M D A := ([], Ret a).

Definition bind {D A B} (m : M D A) (k : A -> M D B) : M D B :=
  match m with
  | (t, Ret a) => let (t', r) := k a in (t ++ t', r)
  | (t, Stop s) => (t, Stop s)
  end.

Definition emit {D} (e : event D) : M D unit := ([e], Ret tt).

Definition halt {D A} (s : stop) : M D A := ([], Stop s).

Definition events {D A} (m : M D A) : list (event D) := fst m.

Definition result {D A} (m : M D A) : outcome A := snd m.

(** Every wind speed recorded in the events [t] satisfies [P]. *)
Definition winds {D} (t : list (event D)) (P : D -> Prop) : Prop :=
  forall u, In (Flux_call u) t -> P u.

Declare Scope monad_scope.
Delimit Scope monad_scope with monad.
Notation "x <- m ;; k" := (bind m (fun x => k))
  (at level 61, m at next level, right associativity) : monad_scope.
Notation "' p <- m ;; k" := (bind m (fun p => k))
  (at level 61, p pattern, m at next level, right associativity) : monad_scope.
Notation "m ;; k" := (bind m (fun _ => k))
  (at level 61, right associativity) : monad_scope.

(** ** What the included headers provide *)

Record Env (D : Type) := {
  KELVIN : D;                     (* 0 C in kelvin *)
  MW : D;                         (* molecular weight of water *)
  R_gas : D;                      (* the macro R: gas law constant *)
  von_K : D;                      (* von Karman's constant *)
  G_STD : D;                      (* standard gravitational acceleration *)
  PI : D;
  ice_density : D;
  svp : D -> D                    (* saturation vapour pressure at a temperature *)
}.
Arguments KELVIN {D} e.
Arguments MW {D} e.
Arguments R_gas {D} e.
Arguments von_K {D} e.
Arguments G_STD {D} e.
Arguments PI {D} e.
Arguments ice_density {D} e.
Arguments svp {D} e _.

(** C arrays are read through a pointer: a total map from index to cell. *)
Definition array (D : Type) : Type := Z -> D.

Definition upd {D} (a : array D) (i : Z) (v : D) : array D :=
  fun k => if (k =? i)%Z then v else a k.

(** [&a[o]]: the array seen from offset [o]. *)
Definition from {D} (a : array D) (o : Z) : array D := fun k => a (o + k)%Z.

(** ** The translation unit *)

Section CalcBlowingSnow_c.

Context {D : Type} {A : Arith D}.
Variable env : Env D.

Local Open Scope dbl_scope.
Local Open Scope monad_scope.

(** *** Macros *)

Definition Ka : D := $0.0245187.       (* thermal conductivity of air *)
Definition CSALT : D := $0.68.         (* saltation constant *)
Definition UTHRESH : D := $0.25.       (* threshold shear velocity *)
Definition KIN_VIS : D := $1.3e-5.     (* kinematic viscosity of air *)
Definition MAX_ITER : Z := 100.
Definition K : Z := 5.
Definition MACHEPS : D := $1.0e-6.
Definition SETTLING : D := $0.3.       (* particle settling velocity *)
Definition NUMINCS : Z := 10.
Definition SIMPLE : bool := false.
Definition SPATIAL_WIND : bool := true.
Definition VAR_THRESHOLD : bool := true.
Definition FETCH : bool := true.
Definition CALC_PROB : bool := true.

(** *** get_shear (lines 457-461): the shear equation and its derivative,
    returned as the pair [( *f, *df )]. *)

Definition get_shear (x Ur Zr : D) : D * D :=
  let f := exp (von_K env * Ur / x) - ($2 * G_STD env * Zr) / ($0.12 * x * x) in
  let df := $(-1) * exp (von_K env * Ur / x) / (x * x)
            + $2 * ($2 * G_STD env * Zr) / ($0.12 * x * x * x) in
  (f, df).

(** *** rtnewt (lines 403-455) *)

Record newton : Type := {
  rts : D; xl : D; xh : D; dx : D; dxold : D; f : D; df : D
}.

(** The end of a pass (lines 444-450), after [dx] and [rts] were updated:
    [inl v] when it executes [return v], [inr s] with the variables as they
    stand when the pass is over. *)
Definition rtnewt_next (acc Ur Zr : D) (s : newton) (dxold' dx' rts' : D)
  : D + newton :=
  if fabs dx' <? acc then inl rts'
  else
    let '(f', df') := get_shear rts' Ur Zr in
    inr {| rts := rts';
           xl := if f' <? $0.0 then rts' else xl s;
           xh := if f' <? $0.0 then xh s else rts';
           dx := dx'; dxold := dxold'; f := f'; df := df' |}.

(** One pass of the [for] loop (lines 431-450). *)
Definition rtnewt_pass (x1 acc Ur Zr : D) (s : newton) : D + newton :=
  if ((((rts s - xh s) * df s - f s) * ((rts s - x1) * df s - f s)) >? $0.0)
     || (fabs ($2.0 * f s) >? fabs (dxold s * df s))
  then
    let dxold' := dx s in
    let dx' := $0.5 * (xh s - xl s) in
    let rts' := xl s + dx' in
    if xl s =? rts' then inl rts'
    else rtnewt_next acc Ur Zr s dxold' dx' rts'
  else
    let dxold' := dx s in
    let dx' := f s / df s in
    let temp := rts s in
    let rts' := rts s - dx' in
    if temp =? rts' then inl rts'
    else rtnewt_next acc Ur Zr s dxold' dx' rts'.

(** [n] passes at most: [Some v] as soon as a pass returns [v], [None] when
    all [n] passes ran to their end. *)
Fixpoint rtnewt_loop (n : nat) (x1 acc Ur Zr : D) (s : newton) : option D :=
  match n with
  | O => None
  | S n' =>
      match rtnewt_pass x1 acc Ur Zr s with
      | inl v => Some v
      | inr s' => rtnewt_loop n' x1 acc Ur Zr s'
      end
  end.

(** The variables on entry to the loop (lines 419-429). *)
Definition rtnewt_init (x1 x2 Ur Zr fl : D) : newton :=
  let rts0 := $0.5 * (x1 + x2) in
  let dxold0 := fabs (x2 - x1) in
  let '(f0, df0) := get_shear rts0 Ur Zr in
  {| rts := rts0;
     xl := if fl <? $0.0 then x1 else x2;
     xh := if fl <? $0.0 then x2 else x1;
     dx := dxold0; dxold := dxold0; f := f0; df := df0 |}.

Definition rtnewt (x1 x2 acc Ur Zr : D) : M D D :=
  let fl := fst (get_shear x1 Ur Zr) in
  let fh := fst (get_shear x2 Ur Zr) in
  if ((fl >? $0.0) && (fh >? $0.0)) || ((fl <? $0.0) && (fh <? $0.0)) then
    emit (Stderr "Root must be bracketed in rtnewt.") ;;
    halt (Exit 0)
  else if fl =? $0.0 then ret x1
  else if fh =? $0.0 then ret x2
  else
    match rtnewt_loop (Z.to_nat MAX_ITER) x1 acc Ur Zr (rtnewt_init x1 x2 Ur Zr fl) with
    | Some v => ret v
    | None =>
        emit (Stderr "Maximum number of iterations exceeded in rtnewt.") ;;
        ret $0.025
    end.

(** *** sub_with_height (lines 488-546) *)

Definition sub_with_height
  (z es Wind AirDens ZO EactAir F hsalt phi_r ushear Zrh : D) (flag : Z) : D :=
  let Rrz := $4.6e-5 * pow z $(-0.258) in
  let ALPHAz := $4.08 + $12.6 * z in
  let Mz := ($4 / $3) * PI env * ice_density env * Rrz * Rrz * Rrz
            * ($1 + ($3 / ALPHAz) + ($2 / (ALPHAz * ALPHAz))) in
  let Rmean := pow (($3 * Mz) / ($4 * PI env * ice_density env)) ($1 / $3) in
  let terminal_v := $1.1e7 * pow Rmean $1.8 in
  let fluctuat_v := $0.005 * pow Wind $1.36 in
  let Vtz := terminal_v + $3 * fluctuat_v * cos (PI env / $4) in
  let Re := $2 * Rmean * Vtz / KIN_VIS in
  let Nu := $1.79 + $0.606 * pow Re $0.5 in
  let sigz := ((EactAir / es) - $1) * (of_int 1 - $0.027 * log (z / Zrh)) in
  let dMdt := of_int 2 * PI env * Rmean * sigz * Nu / F in
  let psi_t := dMdt / Mz in
  let temp := ($0.5 * ushear * ushear) / (Wind * SETTLING) in
  let phi_t := phi_r * ((temp + $1)
                        * pow (z / hsalt) (($(-1) * SETTLING) / (von_K env * ushear))
                        - temp) in
  if (flag =? 1)%Z then psi_t else psi_t * phi_t.

(** *** trapzd (lines 377-401)

    [s] is the function's [static double s]: the value it holds on entry is
    an argument, the value returned is also the one it holds on exit. *)

(** [it <<= 1] on a 32-bit [int], wrapping in two's complement. *)
Definition shl1_int (it : Z) : Z := ((2 * it + 2 ^ 31) mod 2 ^ 32 - 2 ^ 31)%Z.

(** The summation loop of line 396, [count] passes from abscissa [x]. *)
Fixpoint trapzd_sum (count : nat) (x del sum : D)
  (es Wind AirDens ZO EactAir F hsalt phi_r ushear Zrh : D) : D :=
  match count with
  | O => sum
  | S count' =>
      trapzd_sum count' (x + del) del
        (sum + sub_with_height x es Wind AirDens ZO EactAir F hsalt phi_r ushear Zrh 0)
        es Wind AirDens ZO EactAir F hsalt phi_r ushear Zrh
  end.

Definition trapzd (a b : D) (n : Z)
  (es Wind AirDens ZO EactAir F hsalt phi_r ushear Zrh : D) (s : D) : D :=
  if (n =? 1)%Z then
    $0.5 * (b - a)
    * (sub_with_height a es Wind AirDens ZO EactAir F hsalt phi_r ushear Zrh 0
       + sub_with_height b es Wind AirDens ZO EactAir F hsalt phi_r ushear Zrh 0)
  else
    let it := Nat.iter (Z.to_nat (n - 2)) shl1_int 1%Z in
    let tnm := of_int it in
    let del := (b - a) / tnm in
    let x := a + $0.5 * del in
    let sum := trapzd_sum (Z.to_nat it) x del $0.0
                 es Wind AirDens ZO EactAir F hsalt phi_r ushear Zrh in
    $0.5 * (s + (b - a) * sum / tnm).

(** *** polint (lines 339-375)

    [xa] and [ya] are read at indices 1..n.  The work arrays [c] and [d] are
    written at 1..n before they are read; [malloc] is taken to succeed, and
    the block it returns to hold the cells 1..n (the source asks for [n]
    cells; where they lie in memory is not modelled).  [dy] is what [*dy]
    holds on entry; the result is the pair [( *y, *dy )]. *)

(** Lines 352-359: the entry nearest to [x], and the copies of [ya]. *)
Fixpoint polint_nearest (count : nat) (i : Z) (xa ya : array D) (x : D)
  (ns : Z) (dif : D) (c d : array D) : Z * D * array D * array D :=
  match count with
  | O => (ns, dif, c, d)
  | S count' =>
      let dift := fabs (x - xa i) in
      let '(ns', dif') := if dift <? dif then (i, dift) else (ns, dif) in
      polint_nearest count' (i + 1)%Z xa ya x ns' dif' (upd c i (ya i)) (upd d i (ya i))
  end.

(** Lines 362-370: one column of the tableau, [count] entries from [i]. *)
Fixpoint polint_column (count : nat) (i m : Z) (xa : array D) (x : D)
  (c d : array D) : M D (array D * array D) :=
  match count with
  | O => ret (c, d)
  | S count' =>
      let ho := xa i - x in
      let hp := xa (i + m)%Z - x in
      let w := c (i + 1)%Z - d i in
      let den := ho - hp in
      if den =? $0.0 then halt (Nrerror "Error in routine polint")
      else
        let den := w / den in
        let d := upd d i (hp * den) in
        let c := upd c i (ho * den) in
        polint_column count' (i + 1)%Z m xa x c d
  end.

(** Lines 361-372: the columns [m], [m+1], ... *)
Fixpoint polint_columns (count : nat) (m n : Z) (xa : array D) (x : D)
  (ns : Z) (y dy : D) (c d : array D) : M D (D * D) :=
  match count with
  | O => ret (y, dy)
  | S count' =>
      '(c, d) <- polint_column (Z.to_nat (n - m)) 1 m xa x c d ;;
      let '(dy, ns) :=
        if (2 * ns <? n - m)%Z then (c (ns + 1)%Z, ns) else (d ns, (ns - 1)%Z) in
      polint_columns count' (m + 1)%Z n xa x ns (y + dy) dy c d
  end.

Definition polint (xa ya : array D) (n : Z) (x : D) (dy : D) : M D (D * D) :=
  let ns := 1%Z in
  let dif := fabs (x - xa 1%Z) in
  let '(ns, dif, c, d) :=
    polint_nearest (Z.to_nat n) 1 xa ya x ns dif (fun _ => $0) (fun _ => $0) in
  let y := ya ns in
  let ns := (ns - 1)%Z in
  polint_columns (Z.to_nat (n - 1)) 1 n xa x ns y dy c d.

(** *** qromb (lines 317-337)

    [st] carries [trapzd]'s static variable from one call to the next; the
    first call ([j = 1]) overwrites it. *)

Fixpoint qromb_loop (count : nat) (j : Z) (a b : D)
  (es Wind AirDens ZO EactAir F hsalt phi_r ushear Zrh : D)
  (s h : array D) (ss dss : D) (st : D) : M D D :=
  match count with
  | O =>
      halt (Nrerror "Too many steps in routine qromb")
  | S count' =>
      let sj := trapzd a b j es Wind AirDens ZO EactAir F hsalt phi_r ushear Zrh st in
      let s := upd s j sj in
      let continue (ss dss : D) :=
        qromb_loop count' (j + 1)%Z a b
          es Wind AirDens ZO EactAir F hsalt phi_r ushear Zrh
          s (upd h (j + 1)%Z ($0.25 * h j)) ss dss sj in
      if (K <=? j)%Z then
        '(ss, dss) <- polint (from h (j - K)%Z) (from s (j - K)%Z) K $0.0 dss ;;
        if fabs dss <=? MACHEPS * fabs ss then ret ss else continue ss dss
      else continue ss dss
  end.

Definition qromb (a b : D)
  (es Wind AirDens ZO EactAir F hsalt phi_r ushear Zrh : D) : M D D :=
  qromb_loop (Z.to_nat MAX_ITER) 1 a b
    es Wind AirDens ZO EactAir F hsalt phi_r ushear Zrh
    (fun _ => $0) (upd (fun _ => $0) 1%Z $1.0) $0 $0 $0.

(** *** get_prob (lines 553-583) *)

Definition get_prob (Tair Age SurfaceLiquidWater U10 : D) : D :=
  if CALC_PROB then
    if SurfaceLiquidWater <? $0.001 then
      let mean_u_occurence :=
        $11.2 + $0.365 * Tair + $0.00706 * Tair * Tair + $0.9 * log Age in
      let sigma_occurence := $4.3 + $0.145 * Tair + $0.00196 * Tair * Tair in
      if U10 >? $3 then
        $1 / ($1 + exp (sqrt (PI env) * (mean_u_occurence - U10) / sigma_occurence))
      else $0.0
    else
      let mean_u_occurence := $21 in
      let sigma_occurence := $7 in
      if U10 >? $7 then
        $1 / ($1 + exp (sqrt (PI env) * (mean_u_occurence - U10) / sigma_occurence))
      else $0.0
  else $1.

(** *** get_thresh (lines 585-612) *)

Definition get_thresh
  (Tair SurfaceLiquidWater U10 Zo_salt prob_occurence : D) (flag : bool) (ushear : D)
  : D :=
  let ut10 :=
    if SurfaceLiquidWater <? $0.001 then $9.43 + $0.18 * Tair + $0.0033 * Tair * Tair
    else $9.9 in
  if flag then
    let utshear := von_K env * ut10 / log ($10 / Zo_salt) in
    if (ushear <? utshear) && (prob_occurence >? $0.001) then
      von_K env * (U10 - $0.5) / log ($10 / Zo_salt)
    else utshear
  else UTHRESH.

(** *** shear_stress (lines 615-630): the pair [( *ushear, *Zo_salt )]. *)

Definition shear_stress (U10 ZO : D) : M D (D * D) :=
  let temp := von_K env * U10 / log ($10 / ZO) in
  ushear <- rtnewt $0.0000001 (temp + of_int 5) $0.000001 U10 $10 ;;
  let Zo_salt := $0.12 * ushear * ushear / ($2 * G_STD env) in
  if Zo_salt <? ZO then ret (temp, ZO) else ret (ushear, Zo_salt).

(** *** CalcSubFlux (lines 632-682) *)

Definition CalcSubFlux
  (EactAir es Zrh AirDens utshear ushear fe Tsnow Tair U10 Zo_salt F : D) : M D D :=
  let SubFlux := $0.0 in
  let particle := utshear * $2.8 in
  if SIMPLE then
    let b := to_float $0.25 in
    let undersat_2 :=
      to_float (((EactAir / es) - $1)
                * ($1 - $0.027 * log Zrh + $0.027 * log (of_int 2))) in
    ret (to_float (b * undersat_2) * pow U10 $5 / F)
  else
    let Qsalt := (CSALT * AirDens / G_STD env) * (utshear / ushear)
                 * (ushear * ushear - utshear * utshear) in
    let Qsalt :=
      if FETCH then Qsalt * ($1 + ($500 / ($3 * fe)) * (exp ($(-3) * fe / $500) - $1))
      else Qsalt in
    let hsalt := $1.6 * ushear * ushear / ($2 * G_STD env) in
    let phi_s := Qsalt / (hsalt * particle) in
    let psi_s := sub_with_height (hsalt / $2) es U10 AirDens Zo_salt EactAir F hsalt
                   phi_s ushear Zrh 1 in
    let SubFlux := phi_s * psi_s * hsalt in
    let T := $0.5 * (ushear * ushear) / (U10 * SETTLING) in
    let ztop := hsalt * pow (T / (T + $1)) ((von_K env * ushear) / ($(-1) * SETTLING)) in
    q <- qromb hsalt ztop es U10 AirDens Zo_salt EactAir F hsalt phi_s ushear Zrh ;;
    ret (SubFlux + q).

(** *** CalcBlowingSnow (lines 83-315) *)

Section Driver.

(** The quantities that do not depend on the wind interval (lines 128-184). *)
Variables (Tair Age SurfaceLiquidWater AirDens EactAir es F : D).
Variables (ZO : array D) (Zrh snowdepth Tsnow fe : D).
Variables (Uo sigma_w hv Nd area : D).

(** Lines 193-217: the limits of integration of interval [p]. *)
Definition interval_limits (p : Z) : D * D :=
  let lower := $0.0 in
  let upper := $0.0 in
  let '(lower, upper) :=
    if (p =? 0)%Z then
      (of_int 0, Uo + sigma_w * log ($2 * of_int (p + 1) * area))
    else if ((0 <? p) && (p <? Z.quot NUMINCS 2))%Z then
      (Uo + sigma_w * log ($2 * of_int p * area),
       Uo + sigma_w * log ($2 * of_int (p + 1) * area))
    else if ((p <? NUMINCS - 1) && (Z.quot NUMINCS 2 <=? p))%Z then
      (Uo - sigma_w * log ($2 - $2 * (of_int p * area)),
       Uo - sigma_w * log ($2 - $2 * ((of_int p + $1) * area)))
    else if (p =? NUMINCS - 1)%Z then
      (Uo - sigma_w * log ($2 - $2 * (of_int p * area)), Uo * $2)
    else (lower, upper) in
  let lower := if lower <? $0 then $0 else lower in
  let upper := if upper <? of_int 0 then $0 else upper in
  let lower := if lower >? upper then upper else lower in
  (lower, upper).

(** Lines 220-238: the expected wind speed of the interval, clamped. *)
Definition interval_wind (lower upper : D) : M D D :=
  let U10 := Uo in
  U10 <-
    (if lower >=? Uo then
       ret ($(-0.5) * ((upper + sigma_w) * exp (($(-1) / sigma_w) * (upper - Uo))
                       - (lower + sigma_w) * exp (($(-1) / sigma_w) * (lower - Uo)))
            / area)
     else if upper <=? Uo then
       ret ($0.5 * ((upper - sigma_w) * exp (($1 / sigma_w) * (upper - Uo))
                    - (lower - sigma_w) * exp (($1 / sigma_w) * (lower - Uo)))
            / area)
     else
       emit (Stderr "Problem with probability ranges in CalcBlowingSnow.c") ;;
       ret $0.4) ;;
  let U10 := if U10 <? $0.4 then $0.4 else U10 in
  let U10 := if U10 >? $25 then $25 else U10 in
  ret U10.

(** Lines 193-270: the pass of the loop for interval [p]; the new [Total]. *)
Definition interval_pass (p : Z) (Total : D) : M D D :=
  let SubFlux := $0.0 in
  let '(lower, upper) := interval_limits p in
  U10 <- interval_wind lower upper ;;
  let Uveg :=
    if snowdepth <? hv then U10 / sqrt ($1 + of_int 680 * Nd * (hv - snowdepth))
    else U10 in
  let prob_occurence := get_prob Tair Age SurfaceLiquidWater Uveg in
  '(ushear, Zo_salt) <- shear_stress U10 (ZO 2%Z) ;;
  let utshear :=
    get_thresh Tair SurfaceLiquidWater U10 (ZO 2%Z) prob_occurence VAR_THRESHOLD ushear in
  SubFlux <-
    (if (ushear >? utshear) && (EactAir <? es) then
       emit (Flux_call U10) ;;
       CalcSubFlux EactAir es Zrh AirDens utshear ushear fe Tsnow Tair U10 Zo_salt F
     else ret $0.0) ;;
  ret (Total + ($1 / of_int NUMINCS) * SubFlux * prob_occurence).

(** The loop of line 191, [count] passes from interval [p]. *)
Fixpoint interval_loop (count : nat) (p : Z) (Total : D) : M D D :=
  match count with
  | O => ret Total
  | S count' =>
      Total <- interval_pass p Total ;;
      interval_loop count' (p + 1)%Z Total
  end.

(** Lines 277-306: the branch without a wind distribution.  [U10] is the
    local variable of that name, which this branch reads (lines 283 and 285)
    and nothing has written: the value it happens to hold is an argument. *)
Definition single_pass (U10 : D) : M D D :=
  let Uveg :=
    if snowdepth <? hv then U10 / sqrt ($1 + of_int 680 * Nd * (hv - snowdepth))
    else U10 in
  let prob_occurence := get_prob Tair Age SurfaceLiquidWater Uveg in
  '(ushear, Zo_salt) <- shear_stress Uo (ZO 2%Z) ;;
  let utshear :=
    get_thresh Tair SurfaceLiquidWater Uo (ZO 2%Z) prob_occurence VAR_THRESHOLD ushear in
  SubFlux <-
    (if (ushear >? utshear) && (EactAir <? es) then
       emit (Flux_call Uo) ;;
       CalcSubFlux EactAir es Zrh AirDens utshear ushear fe Tsnow Tair Uo Zo_salt F
     else ret $0.0) ;;
  ret (SubFlux * prob_occurence).

End Driver.

Definition CalcBlowingSnow
  (Dt Tair : D) (LastSnow : Z) (SurfaceLiquidWater Wind Ls AirDens Press EactAir : D)
  (ZO : array D) (Zrh snowdepth lag_one sigma_slope Tsnow : D) (iveg Nveg : Z)
  (fe displacement roughness : D)
  (U10 : D)  (* what the uninitialised local [U10] holds *)
  : M D D :=
  let Lv := $2.501e6 - $0.002361e6 * Tsnow in
  let Age := of_int LastSnow * Dt in
  let es := svp env Tair in
  let Tk := Tair + KELVIN env in
  let Ros := $0.622 * es / (of_int 287 * Tk) in
  let Diffusivity := $2.06e-5 * pow (Tk / $273) $1.75 in
  let F := (Ls / (Ka * Tk)) * (Ls * MW env / (R_gas env * Tk) - $1) in
  let F := F + $1 / (Diffusivity * Ros) in
  let wind10 := Wind * log ($10 / ZO 2%Z) / log ((of_int 2 + ZO 2%Z) / ZO 2%Z) in
  let fe := if (iveg =? Nveg)%Z then to_float (of_int 1500) else fe in
  let sigma_slope := if (iveg =? Nveg)%Z then to_float $0.0002 else sigma_slope in
  let ratio := ($2.4 - ($0.4 / $0.9) * lag_one) * sigma_slope in
  let sigma_w := wind10 * ratio in
  sigma_w <-
    (if (sigma_w >? $10) || (sigma_w <? $(-10)) then
       emit (Stderr "sigma problem:") ;; ret $0.22
     else ret sigma_w) ;;
  let Uo := wind10 in
  let hv := ($3 / $2) * displacement in
  let Nd := ($4 / $3) * (roughness / displacement) in
  let Total := $0.0 in
  let area := $1 / of_int NUMINCS in
  Total <-
    (if snowdepth >? $0.0 then
       if SPATIAL_WIND && (sigma_w <>? $0) then
         interval_loop Tair Age SurfaceLiquidWater AirDens EactAir es F ZO Zrh
           snowdepth Tsnow fe Uo sigma_w hv Nd area (Z.to_nat NUMINCS) 0 Total
       else
         single_pass Tair Age SurfaceLiquidWater AirDens EactAir es F ZO Zrh
           snowdepth Tsnow fe Uo hv Nd U10
     else ret Total) ;;
  ret (if Total <? $(-0.00005) then $(-0.00005) else Total).

End CalcBlowingSnow_c.

(** ** IEEE-754 binary64 arithmetic

    [+], [-], [*], [/], [sqrt], [fabs] and the comparisons are the kernel's
    primitive floating-point operations.  The functions of libm are not part
    of the sources; the instance uses the routines below (argument reduction
    and a truncated series, with C99's results at zero, infinity and NaN).
    They are checked at points of known value in the last part of the file;
    they serve to run the program, and no theorem about all inputs depends
    on them. *)

(** The double nearest to an integer.  A literal [$q] is the correctly
    rounded quotient of its numerator and denominator: for the literals of
    the source, whose numerators and denominators are doubles themselves,
    the double nearest to the decimal, as a C compiler reads it. *)
Definition Z2F (z : Z) : float := SF2Prim (binary_normalize prec emax z 0 false).

(** The integer value of an integral float. *)
Definition F2Z (t : float) : Z :=
  match Prim2SF t with
  | S754_finite s m e =>
      let v := if (0 <=? e)%Z then (Z.pos m * 2 ^ e)%Z else (Z.pos m / 2 ^ (- e))%Z in
      if s then (- v)%Z else v
  | _ => 0%Z
  end.

(** Rounding to binary32 and back: what a store into a [float] keeps. *)
Definition F_to_single (x : float) : float :=
  match Prim2SF x with
  | S754_finite s m e => SF2Prim (binary_normalize 24 128 (cond_Zopp s (Z.pos m)) e s)
  | _ => x
  end.

Definition F_is_nan (x : float) : bool := negb (PrimFloat.eqb x x).

(** A double that is [+0], [-0] or NaN. *)
Definition F_zero_or_nan (x : float) : Prop :=
  (exists s, Prim2SF x = S754_zero s) \/ Prim2SF x = S754_nan.

(** The nearest integer, for [|t| < 2^51]. *)
Definition F_rint (t : float) : float := (t + 0x1.8p52 - 0x1.8p52)%float.

Definition F_ln2_hi : float := 0x1.62e42fee00000p-1%float.
Definition F_ln2_lo : float := 0x1.a39ef35793c76p-33%float.
Definition F_inv_ln2 : float := 0x1.71547652b82fep+0%float.

(** [1 + r (1 + r/2 (1 + r/3 (... (1 + r/n))))], the series of [exp r]. *)
Fixpoint F_exp_series (count : nat) (i : float) (r acc : float) : float :=
  match count with
  | O => acc
  | S count' => F_exp_series count' (i - 1)%float r (1 + r / i * acc)%float
  end.

Definition libm_exp (x : float) : float :=
  if F_is_nan x then x
  else if (0x1.62e42fefa39efp+9 <? x)%float then infinity
  else if (x <? -0x1.74910d52d3052p+9)%float then 0%float
  else
    let k := F_rint (x * F_inv_ln2)%float in
    let r := (x - k * F_ln2_hi - k * F_ln2_lo)%float in
    Z.ldexp (F_exp_series 14 14%float r 1%float) (F2Z k).

(** [2 (t + t^3/3 + t^5/5 + ...)], the series of [log ((1+t)/(1-t))]. *)
Fixpoint F_atanh_series (count : nat) (i : float) (t2 acc : float) : float :=
  match count with
  | O => acc
  | S count' => F_atanh_series count' (i - 2)%float t2 (2 / i + t2 * acc)%float
  end.

Definition libm_log (x : float) : float :=
  if F_is_nan x then x
  else if (x <? 0)%float then nan
  else if (x =? 0)%float then neg_infinity
  else if (x =? infinity)%float then x
  else
    let '(m, e) := Z.frexp x in
    let '(m, e) :=
      if (m <? 0x1.6a09e667f3bcdp-1)%float then ((2 * m)%float, (e - 1)%Z) else (m, e) in
    let t := ((m - 1) / (m + 1))%float in
    let series := (t * F_atanh_series 12 23%float (t * t) (2 / 25))%float in
    (Z2F e * F_ln2_hi + (series + Z2F e * F_ln2_lo))%float.

Definition F_is_integer (y : float) : bool :=
  (0x1p52 <=? abs y)%float || (F_rint y =? y)%float.

Definition F_is_odd (y : float) : bool :=
  (abs y <? 0x1p52)%float && Z.odd (F2Z y).

Definition libm_pow (x y : float) : float :=
  if (y =? 0)%float then 1%float
  else if (x =? 1)%float then 1%float
  else if F_is_nan x || F_is_nan y then nan
  else if (0 <? x)%float then libm_exp (y * libm_log x)
  else if (x =? 0)%float then (if (0 <? y)%float then 0%float else infinity)
  else if F_is_integer y then
    let r := libm_exp (y * libm_log (- x)) in
    if F_is_odd y then (- r)%float else r
  else nan.

Definition F_2pi_hi : float := 0x1.921fb54400000p+2%float.
Definition F_2pi_lo : float := 0x1.0b4611a626331p-32%float.

(** [1 - r2/(1*2) (1 - r2/(3*4) (1 - ...))], the series of [cos r]. *)
Fixpoint F_cos_series (count : nat) (i : float) (r2 acc : float) : float :=
  match count with
  | O => acc
  | S count' =>
      F_cos_series count' (i - 2)%float r2 (1 - r2 / ((i - 1) * i) * acc)%float
  end.

Definition libm_cos (x : float) : float :=
  if F_is_nan x || (abs x =? infinity)%float then nan
  else
    let k := F_rint (x / (F_2pi_hi + F_2pi_lo))%float in
    let r := (x - k * F_2pi_hi - k * F_2pi_lo)%float in
    F_cos_series 15 30%float (r * r) 1%float.

#[export] Instance ieee : Arith float := {
  of_Q q := (Z2F (Qnum q) / Z2F (Z.pos (Qden q)))%float;
  of_int := Z2F;
  add := PrimFloat.add;
  sub := PrimFloat.sub;
  mul := PrimFloat.mul;
  div := PrimFloat.div;
  ltb := PrimFloat.ltb;
  leb := PrimFloat.leb;
  eqb := PrimFloat.eqb;
  fabs := PrimFloat.abs;
  sqrt := PrimFloat.sqrt;
  exp := libm_exp;
  log := libm_log;
  cos := libm_cos;
  pow := libm_pow;
  to_float := F_to_single
}.

(** ** Real arithmetic: exact operations, no rounding. *)

#[export] Instance real : Arith R := {
  of_Q := Q2R;
  of_int := IZR;
  add := Rplus;
  sub := Rminus;
  mul := Rmult;
  div := Rdiv;
  ltb x y := if Rlt_dec x y then true else false;
  leb x y := if Rle_dec x y then true else false;
  eqb x y := if Req_dec_T x y then true else false;
  fabs := Rabs;
  sqrt := R_sqrt.sqrt;
  exp := Rtrigo_def.exp;
  log := ln;
  cos := Rtrigo_def.cos;
  pow := Rpower;
  to_float x := x
}.

(** ** A sample environment

    The header constants and [svp] are parameters of the embedding.  To run
    the program they are given the values VIC's headers usually carry, and
    [svp] the usual Magnus-type formula in pascal; no theorem about all
    inputs depends on this choice. *)

Section Sample_env.

Context {D : Type} {A : Arith D}.
Local Open Scope dbl_scope.

Definition sample_svp (temp : D) : D :=
  let SVP := $0.61078 * exp (($17.269 * temp) / ($237.3 + temp)) in
  let SVP :=
    if temp <? $0 then SVP * ($1.0 + $0.00972 * temp + $0.000042 * temp * temp)
    else SVP in
  SVP * $1000.

Definition sample_env : Env D := {|
  KELVIN := $273.15;
  MW := $18.0148e-3;
  R_gas := $8.3143;
  von_K := $0.40;
  G_STD := $9.80665;
  PI := $3.14159265;
  ice_density := $917;
  svp := sample_svp
|}.

(** A sample forcing: a cold, dry snowpack ([Tair = Tsnow], 48 steps of one
    hour since the last snowfall, no liquid water, air density 1.3, pressure
    85000, roughness [ZO[2] = 0.0005], humidity measured at 2 m, slope
    parameters 0.8 and [sigma_slope], vegetated tile with fetch 300,
    displacement 0.1 and roughness 0.01), left open in the air temperature,
    the wind, the vapour pressure, the snow depth, [sigma_slope] and the
    content of the unset local [U10]. *)
Definition sample_run (Tair Wind EactAir snowdepth sigma_slope U10 : D) : M D D :=
  CalcBlowingSnow sample_env $1 Tair 48 $0 Wind $2.838e6 $1.3 $85000 EactAir
    (fun _ => $0.0005) $2 snowdepth $0.8 sigma_slope Tair 1 2 $300 $0.1 $0.01 U10.

(** Some wind speed passed to [CalcSubFlux] in the events [t] satisfies [p]. *)
Definition some_wind (p : D -> bool) (t : list (event D)) : bool :=
  existsb (fun e => match e with Flux_call u => p u | Stderr _ => false end) t.


End Sample_env.

(** Unfolds the literals of the source in real arithmetic. *)
Ltac real_lit := simpl; unfold Q2R; simpl.

(** * Properties *)

(** ** The execution monad *)

Section Monad_facts.

Context {D A B : Type}.

Lemma result_bind (m : M D A) (k : A -> M D B) :
  result (bind m k) =
  match result m with Ret a => result (k a) | Stop s => Stop s end.
Proof.
  destruct m as [t [a | s]]; simpl; [ | reflexivity ].
  destruct (k a); reflexivity.
Qed.

Lemma events_bind (m : M D A) (k : A -> M D B) :
  events (bind m k) =
  events m ++ match result m with Ret a => events (k a) | Stop _ => [] end.
Proof.
  destruct m as [t [a | s]]; simpl.
  - destruct (k a); reflexivity.
  - now rewrite app_nil_r.
Qed.

Lemma bind_returns (m : M D A) (k : A -> M D B) (b : B) :
  result (bind m k) = Ret b ->
  exists a, result m = Ret a /\ result (k a) = Ret b.
Proof.
  rewrite result_bind. destruct (result m) as [a | s]; [ | discriminate ].
  intros H. now exists a.
Qed.

Lemma result_ret_inv (a b : A) : result (ret (D := D) a) = Ret b -> b = a.
Proof. intros H. now injection H. Qed.

End Monad_facts.

(** ** Comparisons of binary64 numbers *)

Lemma F_leb_zero_not_gt (x : float) :
  PrimFloat.leb x 0 = true -> PrimFloat.ltb 0 x = false.
Proof.
  rewrite FloatAxioms.leb_spec, FloatAxioms.ltb_spec. unfold SFleb, SFltb.
  change (Prim2SF 0) with (S754_zero false).
  destruct (Prim2SF x) as [[] | [] | | [] m e]; simpl; congruence.
Qed.

Lemma F_eqb_zero_not_lt (x : float) :
  PrimFloat.eqb x 0 = true ->
  PrimFloat.ltb 0 x = false /\ PrimFloat.ltb x 0 = false.
Proof.
  rewrite FloatAxioms.eqb_spec, !FloatAxioms.ltb_spec. unfold SFeqb, SFltb.
  change (Prim2SF 0) with (S754_zero false).
  destruct (Prim2SF x) as [[] | [] | | [] m e]; simpl; intros H;
    try discriminate H; auto.
Qed.

Lemma SFcompare_antisym (x y : spec_float) :
  SFcompare y x = option_map CompOpp (SFcompare x y).
Proof.
  destruct x as [[] | [] | | sx m e]; destruct y as [[] | [] | | sy m' e'];
    try reflexivity; try (destruct sx; reflexivity); try (destruct sy; reflexivity).
  simpl.
  rewrite (Z.compare_antisym e e').
  change (PosDef.Pos.compare_cont Eq m' m) with (Pos.compare_cont Eq m' m).
  change (PosDef.Pos.compare_cont Eq m m') with (Pos.compare_cont Eq m m').
  replace (Pos.compare_cont Eq m' m) with (CompOpp (Pos.compare_cont Eq m m'))
    by (rewrite Pos.compare_cont_antisym; reflexivity).
  destruct sx, sy, (e ?= e')%Z, (Pos.compare_cont Eq m m'); reflexivity.
Qed.

Lemma F_leb_not_gt (x y : float) :
  PrimFloat.leb x y = true -> PrimFloat.ltb y x = false.
Proof.
  rewrite FloatAxioms.leb_spec, FloatAxioms.ltb_spec. unfold SFleb, SFltb.
  rewrite (SFcompare_antisym (Prim2SF x) (Prim2SF y)).
  destruct (SFcompare (Prim2SF x) (Prim2SF y)) as [[] | ]; simpl; congruence.
Qed.

Lemma ieee_zero : @of_Q float ieee 0.0 = 0%float.
Proof. reflexivity. Qed.

Lemma F_zero_mul (p : float) : F_zero_or_nan (0 * p)%float.
Proof.
  unfold F_zero_or_nan. rewrite FloatAxioms.mul_spec.
  change (Prim2SF 0) with (S754_zero false). unfold SF64mul.
  destruct (Prim2SF p) as [s | s | | s m e]; simpl; eauto.
Qed.

Lemma F_add_zero_or_nan (t z : float) :
  Prim2SF t = S754_zero false \/ Prim2SF t = S754_nan ->
  F_zero_or_nan z ->
  Prim2SF (t + z)%float = S754_zero false \/ Prim2SF (t + z)%float = S754_nan.
Proof.
  intros Ht Hz. rewrite FloatAxioms.add_spec. unfold SF64add.
  destruct Ht as [-> | ->]; destruct Hz as [[s ->] | ->]; simpl; auto.
  destruct s; auto.
Qed.

Lemma F_zero_or_nan_cases (x : float) :
  F_zero_or_nan x -> (x =? $0)%dbl = true \/ F_is_nan x = true.
Proof.
  intros [[s H] | H].
  - left. cbn [eqb ieee]. rewrite FloatAxioms.eqb_spec, H.
    change (Prim2SF ($0)%dbl) with (S754_zero false). reflexivity.
  - right. unfold F_is_nan. rewrite FloatAxioms.eqb_spec, H. reflexivity.
Qed.

Lemma F_zero_or_nan_not_below (x : float) :
  F_zero_or_nan x -> (x <? $(-0.00005))%dbl = false.
Proof.
  intros H. cbn [ltb ieee]. rewrite FloatAxioms.ltb_spec.
  destruct H as [[s ->] | ->]; vm_compute; reflexivity.
Qed.

(** ** The root solver *)

Section Root_solver.

Context {D : Type} {A : Arith D}.
Variable env : Env D.
Local Open Scope dbl_scope.

(** C8.  If the shear equation takes values of the same sign at [x1] and
    [x2], neither of them zero (both above zero, or both below), [rtnewt]
    writes "Root must be bracketed in rtnewt." to the error stream and leaves
    the process: it returns no value.  This holds in every arithmetic. *)
Theorem rtnewt_not_bracketed (x1 x2 acc Ur Zr : D) :
  ((fst (get_shear env x1 Ur Zr) >? $0.0) && (fst (get_shear env x2 Ur Zr) >? $0.0))
  || ((fst (get_shear env x1 Ur Zr) <? $0.0) && (fst (get_shear env x2 Ur Zr) <? $0.0))
  = true ->
  rtnewt env x1 x2 acc Ur Zr
  = ([Stderr "Root must be bracketed in rtnewt."], Stop (Exit 0)).
Proof.
  intros H. unfold rtnewt. rewrite H. reflexivity.
Qed.

(** C9.  On a bracket that passes the sign test and has no zero at an
    endpoint, if none of the 100 passes of the loop returns (no pass ends with
    a step below the tolerance, nor with an unchanged iterate), [rtnewt]
    returns the fixed value 0.025, after a diagnostic, and not an error. *)
Theorem rtnewt_budget_exhausted (x1 x2 acc Ur Zr : D) :
  ((fst (get_shear env x1 Ur Zr) >? $0.0) && (fst (get_shear env x2 Ur Zr) >? $0.0))
  || ((fst (get_shear env x1 Ur Zr) <? $0.0) && (fst (get_shear env x2 Ur Zr) <? $0.0))
  = false ->
  (fst (get_shear env x1 Ur Zr) =? $0.0) = false ->
  (fst (get_shear env x2 Ur Zr) =? $0.0) = false ->
  rtnewt_loop env (Z.to_nat MAX_ITER) x1 acc Ur Zr
    (rtnewt_init env x1 x2 Ur Zr (fst (get_shear env x1 Ur Zr))) = None ->
  rtnewt env x1 x2 acc Ur Zr
  = ([Stderr "Maximum number of iterations exceeded in rtnewt."], Ret $0.025).
Proof.
  intros Hb H1 H2 Hloop. unfold rtnewt. rewrite Hb, H1, H2.
  rewrite Hloop. reflexivity.
Qed.

End Root_solver.

Section Root_solver_binary64.

Variable env : Env float.
Local Open Scope dbl_scope.

(** C10.  In binary64 arithmetic: when the shear equation is exactly zero at
    [x1], [rtnewt] returns [x1]; when it is not, and is exactly zero at [x2],
    [rtnewt] returns [x2].  Either value is returned as it was passed, with
    no diagnostic, whatever the tolerance: the loop is not entered. *)
Theorem rtnewt_zero_at_endpoint (x1 x2 acc Ur Zr : float) :
  ((fst (get_shear env x1 Ur Zr) =? $0.0) = true ->
   rtnewt env x1 x2 acc Ur Zr = ret x1)
  /\ ((fst (get_shear env x1 Ur Zr) =? $0.0) = false ->
      (fst (get_shear env x2 Ur Zr) =? $0.0) = true ->
      rtnewt env x1 x2 acc Ur Zr = ret x2).
Proof.
  unfold rtnewt. rewrite ieee_zero. cbn [ltb eqb ieee].
  split.
  - intros H1. destruct (F_eqb_zero_not_lt _ H1) as [Hgt Hlt].
    rewrite Hgt, Hlt, H1. reflexivity.
  - intros H1 H2. destruct (F_eqb_zero_not_lt _ H2) as [Hgt Hlt].
    rewrite Hgt, Hlt, H1, H2. rewrite !andb_false_r. reflexivity.
Qed.

End Root_solver_binary64.

(** ** The events of a run *)

Section Trace_facts.
Context {D : Type} {A : Arith D}.
Variable env : Env D.
Local Open Scope dbl_scope.

Lemma winds_nil (P : D -> Prop) : winds [] P.
Proof. intros u []. Qed.

Lemma winds_bind {X Y} (m : M D X) (k : X -> M D Y) (P : D -> Prop) :
  winds (events m) P ->
  (forall a, result m = Ret a -> winds (events (k a)) P) ->
  winds (events (bind m k)) P.
Proof.
  intros Hm Hk u. rewrite events_bind. intros H.
  apply in_app_or in H as [H | H]; [ now apply Hm | ].
  destruct (result m) as [a | s] eqn:E; [ | destruct H ].
  now apply (Hk a).
Qed.

Lemma winds_stderr {X} (msg : string) (m : M D X) (P : D -> Prop) :
  winds (events m) P -> winds (events (bind (emit (Stderr msg)) (fun _ => m))) P.
Proof.
  intros H. apply winds_bind; [ | intros _ _; exact H ].
  intros u [E | []]. discriminate E.
Qed.

Lemma rtnewt_winds (x1 x2 acc Ur Zr : D) (P : D -> Prop) :
  winds (events (rtnewt env x1 x2 acc Ur Zr)) P.
Proof.
  unfold rtnewt.
  repeat match goal with
         | |- context [if ?c then _ else _] => destruct c
         | |- context [match ?c with Some _ => _ | None => _ end] => destruct c
         end;
    try apply winds_nil; apply winds_stderr; apply winds_nil.
Qed.

Lemma shear_stress_winds (U10 ZO : D) (P : D -> Prop) :
  winds (events (shear_stress env U10 ZO)) P.
Proof.
  unfold shear_stress. apply winds_bind; [ apply rtnewt_winds | ].
  intros a _. destruct (_ <? _); apply winds_nil.
Qed.

Lemma polint_column_silent (count : nat) :
  forall i m xa x c d, events (polint_column count i m xa x c d) = [].
Proof.
  induction count as [ | count IH]; intros; simpl; [ reflexivity | ].
  destruct (_ =? _); [ reflexivity | apply IH ].
Qed.

Lemma polint_columns_silent (count : nat) :
  forall m n xa x ns y dy c d,
    events (polint_columns count m n xa x ns y dy c d) = [].
Proof.
  induction count as [ | count IH]; intros; simpl; [ reflexivity | ].
  rewrite events_bind, polint_column_silent.
  destruct (result _) as [[c' d'] | s]; [ | reflexivity ].
  simpl. destruct (_ <? _)%Z; apply IH.
Qed.

Lemma polint_silent xa ya n x dy : events (polint xa ya n x dy) = [].
Proof.
  unfold polint. destruct (polint_nearest _ _ _ _ _ _ _ _ _) as [[[ns dif] c] d].
  apply polint_columns_silent.
Qed.

Lemma qromb_loop_silent (count : nat) :
  forall j a b es Wind AirDens ZO EactAir F hsalt phi_r ushear Zrh s h ss dss st,
    events (qromb_loop env count j a b es Wind AirDens ZO EactAir F hsalt phi_r
              ushear Zrh s h ss dss st) = [].
Proof.
  induction count as [ | count IH]; intros; simpl; [ reflexivity | ].
  destruct (K <=? j)%Z; [ | apply IH ].
  rewrite events_bind, polint_silent.
  destruct (result _) as [[ss' dss'] | e]; [ | reflexivity ].
  simpl. destruct (_ <=? _); [ reflexivity | apply IH ].
Qed.

Lemma CalcSubFlux_silent EactAir es Zrh AirDens utshear ushear fe Tsnow Tair U10 Zo_salt F :
  events (CalcSubFlux env EactAir es Zrh AirDens utshear ushear fe Tsnow Tair U10
            Zo_salt F) = [].
Proof.
  unfold CalcSubFlux. simpl. rewrite events_bind. unfold qromb.
  rewrite qromb_loop_silent. destruct (result _); reflexivity.
Qed.

Section Driver_facts.

Variables (Tair Age SurfaceLiquidWater AirDens EactAir es F : D).
Variables (ZO : array D) (Zrh snowdepth Tsnow fe : D).
Variables (Uo sigma_w hv Nd area : D).

Lemma interval_wind_winds lower upper (P : D -> Prop) :
  winds (events (interval_wind Uo sigma_w area lower upper)) P.
Proof.
  unfold interval_wind. apply winds_bind; [ | intros; apply winds_nil ].
  destruct (_ <=? _); [ apply winds_nil | ].
  destruct (_ <=? _); [ apply winds_nil | ].
  apply winds_stderr, winds_nil.
Qed.

(** What [interval_wind] returns went through the two clamps. *)
Lemma interval_wind_clamped lower upper u :
  result (interval_wind Uo sigma_w area lower upper) = Ret u ->
  exists U, u = (if (if U <? $0.4 then $0.4 else U) >? $25 then $25
                 else if U <? $0.4 then $0.4 else U).
Proof.
  unfold interval_wind. intros H.
  apply bind_returns in H as (U & _ & H). exists U.
  simpl in H. now injection H as <-.
Qed.

Lemma interval_pass_winds (P : D -> Prop) p Total :
  (forall lower upper u,
      result (interval_wind Uo sigma_w area lower upper) = Ret u -> P u) ->
  winds (events (interval_pass env Tair Age SurfaceLiquidWater AirDens EactAir es F
                   ZO Zrh snowdepth Tsnow fe Uo sigma_w hv Nd area p Total)) P.
Proof.
  intros HP. unfold interval_pass.
  destruct (interval_limits _ _ _ _) as [lower upper].
  apply winds_bind; [ apply interval_wind_winds | ]. intros U10 HU.
  apply winds_bind; [ apply shear_stress_winds | ]. intros [ushear Zo_salt] _.
  apply winds_bind; [ | intros; apply winds_nil ].
  destruct (_ && _); [ | apply winds_nil ].
  intros u. rewrite events_bind, CalcSubFlux_silent. simpl.
  intros [E | []]. injection E as <-. eapply HP, HU.
Qed.

Lemma interval_loop_winds (P : D -> Prop) count :
  (forall lower upper u,
      result (interval_wind Uo sigma_w area lower upper) = Ret u -> P u) ->
  forall p Total,
  winds (events (interval_loop env Tair Age SurfaceLiquidWater AirDens EactAir es F
                   ZO Zrh snowdepth Tsnow fe Uo sigma_w hv Nd area count p Total)) P.
Proof.
  intros HP. induction count as [ | count IH]; intros p Total; simpl.
  - apply winds_nil.
  - apply winds_bind; [ now apply interval_pass_winds | intros; apply IH ].
Qed.


(** Without a vapour-pressure deficit no pass calls the Flux Assembler, and
    each adds a zero flux. *)
Hypothesis no_deficit : (EactAir <? es) = false.

Lemma interval_pass_no_deficit p Total :
  winds (events (interval_pass env Tair Age SurfaceLiquidWater AirDens EactAir es F
                   ZO Zrh snowdepth Tsnow fe Uo sigma_w hv Nd area p Total))
        (fun _ => False)
  /\ forall T', result (interval_pass env Tair Age SurfaceLiquidWater AirDens EactAir
                          es F ZO Zrh snowdepth Tsnow fe Uo sigma_w hv Nd area p Total)
                = Ret T' ->
       exists prob, T' = Total + ($1 / of_int NUMINCS) * $0.0 * prob.
Proof.
  unfold interval_pass.
  destruct (interval_limits _ _ _ _) as [lower upper]. split.
  - apply winds_bind; [ apply interval_wind_winds | ]. intros U10 _.
    apply winds_bind; [ apply shear_stress_winds | ]. intros [ushear Zo_salt] _.
    rewrite no_deficit, andb_false_r. apply winds_nil.
  - intros T' H.
    apply bind_returns in H as (U10 & _ & H).
    apply bind_returns in H as ([ushear Zo_salt] & _ & H).
    rewrite no_deficit, andb_false_r in H. simpl in H.
    injection H as <-. eexists. reflexivity.
Qed.

Lemma single_pass_no_deficit U10 :
  winds (events (single_pass env Tair Age SurfaceLiquidWater AirDens EactAir es F
                   ZO Zrh snowdepth Tsnow fe Uo hv Nd U10)) (fun _ => False)
  /\ forall T, result (single_pass env Tair Age SurfaceLiquidWater AirDens EactAir es F
                         ZO Zrh snowdepth Tsnow fe Uo hv Nd U10) = Ret T ->
       exists prob, T = $0.0 * prob.
Proof.
  unfold single_pass. split.
  - apply winds_bind; [ apply shear_stress_winds | ]. intros [ushear Zo_salt] _.
    rewrite no_deficit, andb_false_r. apply winds_nil.
  - intros T H.
    apply bind_returns in H as ([ushear Zo_salt] & _ & H).
    rewrite no_deficit, andb_false_r in H. simpl in H.
    injection H as <-. eexists. reflexivity.
Qed.

End Driver_facts.

Lemma interval_loop_no_deficit_winds
  (Tair Age SurfaceLiquidWater AirDens EactAir es F : D)
  (ZO : array D) (Zrh snowdepth Tsnow fe Uo sigma_w hv Nd area : D) :
  (EactAir <? es) = false ->
  forall count p Total,
  winds (events (interval_loop env Tair Age SurfaceLiquidWater AirDens EactAir es F
                   ZO Zrh snowdepth Tsnow fe Uo sigma_w hv Nd area count p Total))
        (fun _ => False).
Proof.
  intros Hd. induction count as [ | count IH]; intros p Total; simpl.
  - apply winds_nil.
  - apply winds_bind; [ | intros; apply IH ].
    now apply interval_pass_no_deficit.
Qed.

(** Without a vapour-pressure deficit the driver never calls [CalcSubFlux]. *)
Lemma CalcBlowingSnow_no_deficit_winds
  (Dt Tair : D) (LastSnow : Z)
  (SurfaceLiquidWater Wind Ls AirDens Press EactAir : D) (ZO : array D)
  (Zrh snowdepth lag_one sigma_slope Tsnow : D) (iveg Nveg : Z)
  (fe displacement roughness U10 : D) :
  (EactAir <? svp env Tair) = false ->
  winds (events (CalcBlowingSnow env Dt Tair LastSnow SurfaceLiquidWater Wind Ls
                   AirDens Press EactAir ZO Zrh snowdepth lag_one sigma_slope Tsnow
                   iveg Nveg fe displacement roughness U10))
        (fun _ => False).
Proof.
  intros Hd. unfold CalcBlowingSnow. cbv zeta.
  apply winds_bind.
  { destruct (_ || _)%bool; [ apply winds_stderr | ]; apply winds_nil. }
  intros sw _. apply winds_bind; [ | intros; apply winds_nil ].
  destruct (snowdepth >? _); [ | apply winds_nil ].
  destruct (_ && _)%bool.
  - now apply interval_loop_no_deficit_winds.
  - now apply single_pass_no_deficit.
Qed.

(** The value returned went through the clamp of lines 310-311. *)
Lemma CalcBlowingSnow_clamped
  (Dt Tair : D) (LastSnow : Z)
  (SurfaceLiquidWater Wind Ls AirDens Press EactAir : D) (ZO : array D)
  (Zrh snowdepth lag_one sigma_slope Tsnow : D) (iveg Nveg : Z)
  (fe displacement roughness U10 : D) (r : D) :
  result (CalcBlowingSnow env Dt Tair LastSnow SurfaceLiquidWater Wind Ls AirDens
            Press EactAir ZO Zrh snowdepth lag_one sigma_slope Tsnow iveg Nveg
            fe displacement roughness U10) = Ret r ->
  exists Total, r = if Total <? $(-0.00005) then $(-0.00005) else Total.
Proof.
  unfold CalcBlowingSnow. intros H.
  apply bind_returns in H as (sw & _ & H).
  apply bind_returns in H as (Total & _ & H).
  exists Total. simpl in H. now injection H as <-.
Qed.

Lemma result_sigma_guard (c : bool) (e : event D) (a b : D) :
  result (if c then bind (emit e) (fun _ => ret a) else ret b)
  = Ret (if c then a else b).
Proof. destruct c; reflexivity. Qed.



End Trace_facts.

(** ** Real arithmetic *)

Lemma real_ltb_true (x y : R) : @ltb R real x y = true <-> (x < y)%R.
Proof. simpl. destruct (Rlt_dec x y); split; intros; try discriminate; tauto. Qed.

Lemma real_ltb_false (x y : R) : @ltb R real x y = false <-> (y <= x)%R.
Proof.
  simpl. destruct (Rlt_dec x y); split; intros; try discriminate; try lra; auto.
Qed.

(** ** The occurrence probability *)

Section Occurrence.

Variable env : Env R.
Local Open Scope R_scope.

Lemma sigma_occurence_pos (Tair : R) :
  0 < 4.3 + 0.145 * Tair + 0.00196 * Tair * Tair.
Proof.
  pose proof (pow2_ge_0 (Tair + 3625 / 98)) as H. nra.
Qed.

Lemma logistic_monotone (a s m U U' : R) :
  0 <= a -> 0 < s -> U <= U' ->
  1 / (1 + Rtrigo_def.exp (a * (m - U) / s))
  <= 1 / (1 + Rtrigo_def.exp (a * (m - U') / s)).
Proof.
  intros Ha Hs HU.
  assert (Harg : a * (m - U') / s <= a * (m - U) / s).
  { unfold Rdiv. apply Rmult_le_compat_r; [ left; now apply Rinv_0_lt_compat | nra ]. }
  assert (Hexp : Rtrigo_def.exp (a * (m - U') / s) <= Rtrigo_def.exp (a * (m - U) / s)).
  { destruct Harg as [Hlt | ->]; [ left; now apply exp_increasing | right; reflexivity ]. }
  revert Hexp. generalize (exp_pos (a * (m - U') / s)) (exp_pos (a * (m - U) / s)).
  generalize (Rtrigo_def.exp (a * (m - U') / s)) (Rtrigo_def.exp (a * (m - U) / s)).
  intros e' e He' He Hle. unfold Rdiv. rewrite !Rmult_1_l.
  apply Rinv_le_contravar; lra.
Qed.

(** C7.  On dry snow ([SurfaceLiquidWater < 0.001]), whatever the air
    temperature and the age of the snow: [get_prob] is exactly 0 for every
    wind speed [U10 <= 3], and above that cutoff it does not decrease when the
    wind speed grows.  (Real arithmetic.) *)
Theorem get_prob_cutoff_and_monotone (Tair Age SurfaceLiquidWater : R) :
  SurfaceLiquidWater < 0.001 ->
  (forall U10, U10 <= 3 -> get_prob env Tair Age SurfaceLiquidWater U10 = 0)
  /\ (forall U U', 3 < U -> U <= U' ->
        get_prob env Tair Age SurfaceLiquidWater U
        <= get_prob env Tair Age SurfaceLiquidWater U').
Proof.
  intros Hdry.
  assert (Hd : @ltb R real SurfaceLiquidWater (of_Q 0.001) = true).
  { apply real_ltb_true. real_lit. lra. }
  unfold get_prob. change CALC_PROB with true. cbv iota. rewrite Hd. split.
  - intros U10 HU.
    assert (Hc : @ltb R real (of_Q 3) U10 = false).
    { apply real_ltb_false. real_lit. lra. }
    rewrite Hc. real_lit. lra.
  - intros U U' H3 HU.
    assert (Hc : @ltb R real (of_Q 3) U = true).
    { apply real_ltb_true. real_lit. lra. }
    assert (Hc' : @ltb R real (of_Q 3) U' = true).
    { apply real_ltb_true. real_lit. lra. }
    rewrite Hc, Hc'.
    cbn [add sub mul div exp sqrt log of_Q real].
    replace (Q2R 1) with 1 by (unfold Q2R; simpl; lra).
    apply logistic_monotone; [ apply sqrt_pos | | exact HU ].
    generalize (sigma_occurence_pos Tair). unfold Q2R. simpl. lra.
Qed.

End Occurrence.

(** ** The driver *)

Section Driver_binary64.

Variable env : Env float.
Local Open Scope dbl_scope.

(** C1.  In binary64 arithmetic, for every value of the other arguments
    (and of the unset local [U10]): if [snowdepth <= 0], [CalcBlowingSnow]
    returns exactly 0. *)
Theorem CalcBlowingSnow_no_snow
  (Dt Tair : float) (LastSnow : Z)
  (SurfaceLiquidWater Wind Ls AirDens Press EactAir : float) (ZO : array float)
  (Zrh snowdepth lag_one sigma_slope Tsnow : float) (iveg Nveg : Z)
  (fe displacement roughness U10 : float) :
  (snowdepth <=? $0.0) = true ->
  result (CalcBlowingSnow env Dt Tair LastSnow SurfaceLiquidWater Wind Ls AirDens
            Press EactAir ZO Zrh snowdepth lag_one sigma_slope Tsnow iveg Nveg
            fe displacement roughness U10)
  = Ret 0%float.
Proof.
  intros H. unfold CalcBlowingSnow. cbv zeta.
  rewrite result_bind, result_sigma_guard.
  rewrite result_bind.
  rewrite ieee_zero in *. cbn [ltb leb ieee] in *.
  rewrite (F_leb_zero_not_gt _ H).
  reflexivity.
Qed.

(** In binary64 arithmetic a value returned by [CalcBlowingSnow] is never
    below the floor -5e-5: the test of line 310 fails on it.  (A total that
    is not a number passes that test and is returned as it is.) *)
Theorem CalcBlowingSnow_never_below_floor
  (Dt Tair : float) (LastSnow : Z)
  (SurfaceLiquidWater Wind Ls AirDens Press EactAir : float) (ZO : array float)
  (Zrh snowdepth lag_one sigma_slope Tsnow : float) (iveg Nveg : Z)
  (fe displacement roughness U10 : float) (r : float) :
  result (CalcBlowingSnow env Dt Tair LastSnow SurfaceLiquidWater Wind Ls AirDens
            Press EactAir ZO Zrh snowdepth lag_one sigma_slope Tsnow iveg Nveg
            fe displacement roughness U10) = Ret r ->
  (r <? $(-0.00005)) = false.
Proof.
  intros H. apply CalcBlowingSnow_clamped in H as (Total & ->).
  destruct (Total <? _) eqn:E; [ reflexivity | exact E ].
Qed.

(** In binary64 arithmetic a wind speed that the interval loop passes to
    [CalcSubFlux] is neither below 0.4 nor above 25. *)
Theorem interval_winds_binary64
  (Tair Age SurfaceLiquidWater AirDens EactAir es F : float)
  (ZO : array float) (Zrh snowdepth Tsnow fe Uo sigma_w hv Nd area : float)
  (count : nat) (p : Z) (Total u : float) :
  In (Flux_call u)
     (events (interval_loop env Tair Age SurfaceLiquidWater AirDens EactAir es F
                ZO Zrh snowdepth Tsnow fe Uo sigma_w hv Nd area count p Total)) ->
  (u <? $0.4) = false /\ (u >? $25) = false.
Proof.
  revert u.
  apply (interval_loop_winds env Tair Age SurfaceLiquidWater AirDens EactAir es F
           ZO Zrh snowdepth Tsnow fe Uo sigma_w hv Nd area
           (fun u => (u <? $0.4) = false /\ (u >? $25) = false)).
  intros lower upper u H. apply interval_wind_clamped in H as (U & ->).
  destruct (U <? $0.4) eqn:E1.
  - split; reflexivity.
  - destruct (U >? $25) eqn:E2; [ split; reflexivity | now split ].
Qed.

(** In binary64 arithmetic, when the vapour pressure is not below saturation
    the driver does not call [CalcSubFlux] at all. *)
Theorem no_deficit_no_call_binary64
  (Dt Tair : float) (LastSnow : Z)
  (SurfaceLiquidWater Wind Ls AirDens Press EactAir : float) (ZO : array float)
  (Zrh snowdepth lag_one sigma_slope Tsnow : float) (iveg Nveg : Z)
  (fe displacement roughness U10 : float) (u : float) :
  (EactAir >=? svp env Tair) = true ->
  ~ In (Flux_call u)
      (events (CalcBlowingSnow env Dt Tair LastSnow SurfaceLiquidWater Wind Ls
                 AirDens Press EactAir ZO Zrh snowdepth lag_one sigma_slope Tsnow
                 iveg Nveg fe displacement roughness U10)).
Proof.
  intros H Hin.
  exact (CalcBlowingSnow_no_deficit_winds env _ _ _ _ _ _ _ _ _ _ _ _ _ _ _ _ _ _ _ _ _
           (F_leb_not_gt _ _ H) u Hin).
Qed.

Lemma interval_loop_no_deficit_binary64
  (Tair Age SurfaceLiquidWater AirDens EactAir es F : float)
  (ZO : array float) (Zrh snowdepth Tsnow fe Uo sigma_w hv Nd area : float) :
  (EactAir <? es) = false ->
  forall count p Total T',
    Prim2SF Total = S754_zero false \/ Prim2SF Total = S754_nan ->
    result (interval_loop env Tair Age SurfaceLiquidWater AirDens EactAir es F
              ZO Zrh snowdepth Tsnow fe Uo sigma_w hv Nd area count p Total) = Ret T' ->
    Prim2SF T' = S754_zero false \/ Prim2SF T' = S754_nan.
Proof.
  intros Hd. induction count as [ | count IH]; intros p Total T' HT H; simpl in H.
  - injection H as <-. exact HT.
  - apply bind_returns in H as (T1 & H1 & H).
    apply (interval_pass_no_deficit env Tair Age SurfaceLiquidWater AirDens EactAir
             es F ZO Zrh snowdepth Tsnow fe Uo sigma_w hv Nd area Hd p Total)
      in H1 as (prob & ->).
    apply IH in H; [ exact H | ].
    change (($1 / of_int NUMINCS) * $0.0) with 0%float.
    apply F_add_zero_or_nan; [ exact HT | apply F_zero_mul ].
Qed.

(** In binary64 arithmetic, when the vapour pressure is not below saturation
    the total that [CalcBlowingSnow] returns is a zero; or it is NaN, which
    happens when an occurrence probability is not finite. *)
Theorem no_deficit_total_binary64
  (Dt Tair : float) (LastSnow : Z)
  (SurfaceLiquidWater Wind Ls AirDens Press EactAir : float) (ZO : array float)
  (Zrh snowdepth lag_one sigma_slope Tsnow : float) (iveg Nveg : Z)
  (fe displacement roughness U10 : float) (r : float) :
  (EactAir >=? svp env Tair) = true ->
  result (CalcBlowingSnow env Dt Tair LastSnow SurfaceLiquidWater Wind Ls AirDens
            Press EactAir ZO Zrh snowdepth lag_one sigma_slope Tsnow iveg Nveg
            fe displacement roughness U10) = Ret r ->
  (r =? $0) = true \/ F_is_nan r = true.
Proof.
  intros Hsat H. apply F_leb_not_gt in Hsat.
  unfold CalcBlowingSnow in H. cbv zeta in H.
  apply bind_returns in H as (sw & _ & H).
  apply bind_returns in H as (Total & HT & H).
  assert (HZ : F_zero_or_nan Total).
  { destruct (snowdepth >? _).
    - destruct (_ && _)%bool.
      + apply interval_loop_no_deficit_binary64 in HT; [ | exact Hsat | now left ].
        destruct HT as [HT | HT]; [ left; eauto | now right ].
      + eapply single_pass_no_deficit in HT; [ | exact Hsat ].
        destruct HT as (prob & ->). apply F_zero_mul.
    - simpl in HT. injection HT as <-. left. now exists false. }
  apply result_ret_inv in H as ->.
  rewrite (F_zero_or_nan_not_below _ HZ).
  now apply F_zero_or_nan_cases.
Qed.

(** In binary64 arithmetic, on dry snow, [get_prob] is exactly 0 up to the
    cutoff of 3 m/s. *)
Theorem get_prob_cutoff_binary64 (Tair Age SurfaceLiquidWater U10 : float) :
  (SurfaceLiquidWater <? $0.001) = true ->
  (U10 <=? $3) = true ->
  get_prob env Tair Age SurfaceLiquidWater U10 = 0%float.
Proof.
  intros Hdry HU. unfold get_prob. change CALC_PROB with true. cbv iota.
  rewrite Hdry. cbn [ltb leb ieee] in *. rewrite (F_leb_not_gt _ _ HU).
  reflexivity.
Qed.

End Driver_binary64.

Section Driver_real.

Variable env : Env R.
Local Open Scope dbl_scope.



Section Branches.

Variables (Tair Age SurfaceLiquidWater AirDens EactAir es F : R).
Variables (ZO : array R) (Zrh snowdepth Tsnow fe : R).
Variables (Uo sigma_w hv Nd area : R).

Hypothesis no_deficit : (es <= EactAir)%R.

Lemma interval_pass_no_deficit_real p Total T' :
  result (interval_pass env Tair Age SurfaceLiquidWater AirDens EactAir es F
            ZO Zrh snowdepth Tsnow fe Uo sigma_w hv Nd area p Total) = Ret T' ->
  T' = Total.
Proof.
  assert (Hd : (EactAir <? es) = false) by now apply real_ltb_false.
  intros H.
  apply (interval_pass_no_deficit env Tair Age SurfaceLiquidWater AirDens EactAir
           es F ZO Zrh snowdepth Tsnow fe Uo sigma_w hv Nd area Hd p Total)
    in H as (prob & ->).
  real_lit. lra.
Qed.

Lemma interval_loop_no_deficit_real count :
  forall p Total,
  winds (events (interval_loop env Tair Age SurfaceLiquidWater AirDens EactAir es F
                   ZO Zrh snowdepth Tsnow fe Uo sigma_w hv Nd area count p Total))
        (fun _ => False)
  /\ forall T', result (interval_loop env Tair Age SurfaceLiquidWater AirDens EactAir
                          es F ZO Zrh snowdepth Tsnow fe Uo sigma_w hv Nd area count p
                          Total) = Ret T' -> T' = Total.
Proof.
  assert (Hd : (EactAir <? es) = false) by now apply real_ltb_false.
  induction count as [ | count IH]; intros p Total; simpl.
  - split; [ apply winds_nil | ]. intros T' H. now injection H.
  - split.
    + apply winds_bind; [ | intros; apply IH ].
      now apply interval_pass_no_deficit.
    + intros T' H. apply bind_returns in H as (T1 & H1 & H).
      apply interval_pass_no_deficit_real in H1 as ->. now apply IH in H.
Qed.

Lemma single_pass_no_deficit_real U10 :
  winds (events (single_pass env Tair Age SurfaceLiquidWater AirDens EactAir es F
                   ZO Zrh snowdepth Tsnow fe Uo hv Nd U10)) (fun _ => False)
  /\ forall T, result (single_pass env Tair Age SurfaceLiquidWater AirDens EactAir es F
                         ZO Zrh snowdepth Tsnow fe Uo hv Nd U10) = Ret T -> T = 0%R.
Proof.
  assert (Hd : (EactAir <? es) = false) by now apply real_ltb_false.
  destruct (single_pass_no_deficit env Tair Age SurfaceLiquidWater AirDens EactAir
              es F ZO Zrh snowdepth Tsnow fe Uo hv Nd Hd U10) as [Hw Hr].
  split; [ exact Hw | ]. intros T H. apply Hr in H as (prob & ->).
  real_lit. lra.
Qed.

End Branches.


(** C4.  In real arithmetic, with snow on the ground and air that is not
    below saturation ([EactAir >= es], where [es = svp(Tair)]): each pass of
    the interval loop leaves [Total] as it was, whatever the wind speed of the
    interval and the other quantities; [CalcSubFlux] is never invoked; and
    the total that [CalcBlowingSnow] returns is 0. *)
Theorem no_deficit_no_flux
  (Dt Tair : R) (LastSnow : Z)
  (SurfaceLiquidWater Wind Ls AirDens Press EactAir : R) (ZO : array R)
  (Zrh snowdepth lag_one sigma_slope Tsnow : R) (iveg Nveg : Z)
  (fe displacement roughness U10 : R) :
  (0 < snowdepth)%R ->
  (svp env Tair <= EactAir)%R ->
  (forall Age F fe' Uo sigma_w hv Nd area p Total T',
      result (interval_pass env Tair Age SurfaceLiquidWater AirDens EactAir
                (svp env Tair) F ZO Zrh snowdepth Tsnow fe' Uo sigma_w hv Nd area
                p Total) = Ret T' ->
      T' = Total)
  /\ (forall u,
         ~ In (Flux_call u)
             (events (CalcBlowingSnow env Dt Tair LastSnow SurfaceLiquidWater Wind Ls
                        AirDens Press EactAir ZO Zrh snowdepth lag_one sigma_slope
                        Tsnow iveg Nveg fe displacement roughness U10)))
  /\ (forall r,
         result (CalcBlowingSnow env Dt Tair LastSnow SurfaceLiquidWater Wind Ls
                   AirDens Press EactAir ZO Zrh snowdepth lag_one sigma_slope Tsnow
                   iveg Nveg fe displacement roughness U10) = Ret r ->
         r = 0%R).
Proof.
  intros Hsnow Hsat. split; [ | unfold CalcBlowingSnow; cbv zeta; split ].
  - intros Age F fe' Uo sigma_w hv Nd area p Total T'.
    now apply interval_pass_no_deficit_real.
  - match goal with
    | |- forall u, ~ In (Flux_call u) ?t => change (winds t (fun _ => False))
    end.
    apply winds_bind.
    { destruct (_ || _)%bool; [ apply winds_stderr | ]; apply winds_nil. }
    intros sw _. apply winds_bind; [ | intros; apply winds_nil ].
    destruct (_ >? _); [ | apply winds_nil ].
    destruct (_ && _)%bool.
    + now apply interval_loop_no_deficit_real.
    + now apply single_pass_no_deficit_real.
  - intros r H.
    apply bind_returns in H as (sw & _ & H).
    apply bind_returns in H as (Total & HT & H).
    assert (Total = 0%R) as ->.
    { destruct (_ >? _).
      - destruct (_ && _)%bool.
        + apply interval_loop_no_deficit_real in HT; [ | exact Hsat ].
          rewrite HT. real_lit. lra.
        + now apply single_pass_no_deficit_real in HT.
      - simpl in HT. injection HT as <-. real_lit. lra. }
    simpl in H. injection H as <-.
    destruct (Rlt_dec _ _) as [Hlt | _]; [ | reflexivity ].
    revert Hlt. real_lit. lra.
Qed.


End Driver_real.

(** ** Runs in binary64 arithmetic *)

Section Runs.

Local Open Scope dbl_scope.

(** The routines that stand for libm, at points where the exact value is
    known: they return it, or differ from the correctly rounded value by a
    unit in the last place at most. *)
Example libm_exp_at_0 : libm_exp 0 = 1%float.
Proof. vm_compute. reflexivity. Qed.

Example libm_log_at_1 : libm_log 1 = 0%float.
Proof. vm_compute. reflexivity. Qed.

Example libm_pow_2_10 : libm_pow 2 10 = 1024%float.
Proof. vm_compute. reflexivity. Qed.

Example libm_exp_at_1 :
  (abs (libm_exp 1 - 0x1.5bf0a8b145769p+1) <=? 0x1p-51)%float = true.
Proof. vm_compute. reflexivity. Qed.

Example libm_log_at_10 :
  (abs (libm_log 10 - 0x1.26bb1bbb55516p+1) <=? 0x1p-51)%float = true.
Proof. vm_compute. reflexivity. Qed.

Example libm_pow_2_half :
  (abs (libm_pow 2 0x1p-1 - 0x1.6a09e667f3bcdp+0) <=? 0x1p-52)%float = true.
Proof. vm_compute. reflexivity. Qed.

Example libm_cos_quarter_pi :
  (abs (libm_cos 0x1.921fb54442d18p-1 - 0x1.6a09e667f3bcdp-1) <=? 0x1p-53)%float
  = true.
Proof. vm_compute. reflexivity. Qed.

Example libm_special_values :
  (F_is_nan (libm_exp nan) && F_is_nan (libm_log nan) && F_is_nan (libm_log (-1))
   && (libm_log 0 =? neg_infinity)%float && (libm_exp neg_infinity =? 0)%float
   && (libm_exp infinity =? infinity)%float)%bool = true.
Proof. vm_compute. reflexivity. Qed.

Lemma some_wind_exists (p : float -> bool) (t : list (event float)) :
  some_wind p t = true -> exists u, In (Flux_call u) t /\ p u = true.
Proof.
  unfold some_wind. intros H. apply existsb_exists in H as (e & Hin & He).
  destruct e as [msg | u]; [ discriminate He | ]. now exists u.
Qed.

Lemma returns_exists {X} (p : X -> bool) (m : M float X) :
  match result m with Ret v => p v | Stop _ => false end = true ->
  exists v, result m = Ret v /\ p v = true.
Proof.
  destruct (result m) as [v | s]; [ | discriminate ]. intros H. now exists v.
Qed.

(** With a vapour pressure of 300 Pa, above saturation at -10 C, the sample
    run calls nothing and returns 0. *)
Example sample_run_saturated :
  sample_run (A := ieee) $(-10) $8 $300 $0.3 $0.0003 $0 = ([], Ret 0%float).
Proof. vm_compute. reflexivity. Qed.





End Runs.

(** ** Instances of the theorems *)

Section Instances.

Local Open Scope dbl_scope.

Lemma CalcBlowingSnow_no_snow_witness :
  result (sample_run (A := ieee) $(-10) $8 $200 $0 $0.0003 $0) = Ret 0%float.
Proof.
  unfold sample_run. apply CalcBlowingSnow_no_snow. vm_compute. reflexivity.
Defined.


Lemma sample_svp_at_zero : sample_svp (A := real) $0 = 610.78%R.
Proof.
  unfold sample_svp.
  assert (Hc : ($0 <? $0) = false) by (apply real_ltb_false; real_lit; lra).
  rewrite Hc. cbn [add sub mul div exp of_Q real].
  replace (Q2R 17.269 * Q2R 0 / (Q2R 237.3 + Q2R 0))%R with 0%R
    by (unfold Q2R; simpl; field).
  rewrite exp_0. unfold Q2R. simpl. lra.
Qed.

Lemma no_deficit_no_flux_witness :
  (forall u,
      ~ In (Flux_call u)
          (events (sample_run (A := real) $0 $8 $700 $0.3 $0.0003 $0)))
  /\ (forall r,
         result (sample_run (A := real) $0 $8 $700 $0.3 $0.0003 $0) = Ret r ->
         r = 0%R).
Proof.
  assert (Hs : (0 < $0.3)%R) by (real_lit; lra).
  assert (Hsat : (svp sample_env $0 <= $700)%R).
  { change (svp sample_env $0) with (sample_svp (A := real) $0).
    rewrite sample_svp_at_zero. real_lit. lra. }
  unfold sample_run.
  exact (proj2 (no_deficit_no_flux sample_env $1 $0 48 $0 $8 $2.838e6 $1.3 $85000
                  $700 (fun _ => $0.0005) $2 $0.3 $0.8 $0.0003 $0 1 2 $300 $0.1
                  $0.01 $0 Hs Hsat)).
Defined.

Lemma get_prob_witness :
  (forall U10 : R, (U10 <= 3)%R ->
     get_prob (A := real) sample_env $(-10) $48 $0 U10 = 0%R)
  /\ (forall U U' : R, (3 < U)%R -> (U <= U')%R ->
        (get_prob (A := real) sample_env $(-10) $48 $0 U
         <= get_prob (A := real) sample_env $(-10) $48 $0 U')%R).
Proof.
  apply get_prob_cutoff_and_monotone. real_lit. lra.
Defined.

Lemma rtnewt_not_bracketed_witness :
  rtnewt (A := ieee) sample_env $0.0000001 $5 $0.000001 $0 $10
  = ([Stderr "Root must be bracketed in rtnewt."], Stop (Exit 0)).
Proof.
  apply rtnewt_not_bracketed. vm_compute. reflexivity.
Defined.

Lemma rtnewt_budget_exhausted_witness :
  rtnewt (A := ieee) sample_env $(-1) $1 $0.000001 $10 $0.001
  = ([Stderr "Maximum number of iterations exceeded in rtnewt."], Ret $0.025).
Proof.
  apply rtnewt_budget_exhausted; vm_compute; reflexivity.
Defined.

Lemma rtnewt_zero_at_endpoint_witness :
  rtnewt (A := ieee) sample_env $1.5 $5 $0.000001 $0
    ($0.12 * $1.5 * $1.5 / ($2 * G_STD sample_env)) = ret $1.5
  /\ rtnewt (A := ieee) sample_env $0.0000001 $1.5 $0.000001 $0
       ($0.12 * $1.5 * $1.5 / ($2 * G_STD sample_env)) = ret $1.5.
Proof.
  split.
  - apply (proj1 (rtnewt_zero_at_endpoint sample_env _ _ _ _ _)).
    vm_compute. reflexivity.
  - apply (proj2 (rtnewt_zero_at_endpoint sample_env _ _ _ _ _));
      vm_compute; reflexivity.
Defined.

Lemma CalcBlowingSnow_never_below_floor_witness :
  exists v,
    result (sample_run (A := ieee) $(-10) $8 $200 $0.3 $0.0003 $0) = Ret v
    /\ (v <? $(-0.00005)) = false.
Proof.
  unfold sample_run.
  destruct (returns_exists (fun _ => true)
              (CalcBlowingSnow (A := ieee) sample_env $1 $(-10) 48 $0 $8 $2.838e6
                 $1.3 $85000 $200 (fun _ => $0.0005) $2 $0.3 $0.8 $0.0003 $(-10)
                 1 2 $300 $0.1 $0.01 $0))
    as (v & Hv & _).
  { vm_compute. reflexivity. }
  exists v. split; [ exact Hv | ].
  exact (CalcBlowingSnow_never_below_floor sample_env
           _ _ _ _ _ _ _ _ _ _ _ _ _ _ _ _ _ _ _ _ _ v Hv).
Defined.

Lemma interval_winds_binary64_witness :
  exists u,
    In (Flux_call u)
       (events (interval_loop (A := ieee) sample_env $(-10) $48 $0 $1.3 $200 $259
                  $3.4e7 (fun _ => $0.0005) $2 $0.3 $(-10) $300 $9.5 $0.02 $0.15
                  $0.13 $0.1 10 0 $0))
    /\ (u <? $0.4) = false /\ (u >? $25) = false.
Proof.
  destruct (some_wind_exists (fun _ => true)
              (events (interval_loop (A := ieee) sample_env $(-10) $48 $0 $1.3 $200
                         $259 $3.4e7 (fun _ => $0.0005) $2 $0.3 $(-10) $300 $9.5
                         $0.02 $0.15 $0.13 $0.1 10 0 $0)))
    as (u & Hu & _).
  { vm_compute. reflexivity. }
  exists u. split; [ exact Hu | ].
  eapply interval_winds_binary64. exact Hu.
Defined.

Lemma no_deficit_no_call_binary64_witness :
  ($300 >=? svp (D := float) sample_env $(-10)) = true
  /\ ~ In (Flux_call $9.5)
        (events (sample_run (A := ieee) $(-10) $8 $300 $0.3 $0.0003 $0)).
Proof.
  assert (H : ($300 >=? svp (D := float) sample_env $(-10)) = true).
  { vm_compute. reflexivity. }
  split; [ exact H | ].
  unfold sample_run. apply no_deficit_no_call_binary64. exact H.
Defined.

Lemma no_deficit_total_binary64_witness :
  exists v,
    result (sample_run (A := ieee) $(-10) $8 $300 $0.3 $0.0003 $0) = Ret v
    /\ ((v =? $0) = true \/ F_is_nan v = true).
Proof.
  unfold sample_run.
  destruct (returns_exists (fun _ => true)
              (CalcBlowingSnow (A := ieee) sample_env $1 $(-10) 48 $0 $8 $2.838e6
                 $1.3 $85000 $300 (fun _ => $0.0005) $2 $0.3 $0.8 $0.0003 $(-10)
                 1 2 $300 $0.1 $0.01 $0))
    as (v & Hv & _).
  { vm_compute. reflexivity. }
  exists v. split; [ exact Hv | ].
  refine (no_deficit_total_binary64 sample_env
            _ _ _ _ _ _ _ _ _ _ _ _ _ _ _ _ _ _ _ _ _ v _ Hv).
  vm_compute. reflexivity.
Defined.

Lemma get_prob_cutoff_binary64_witness :
  get_prob (A := ieee) sample_env $(-10) $48 $0 $2 = 0%float.
Proof.
  apply get_prob_cutoff_binary64; vm_compute; reflexivity.
Defined.


End Instances.
